(** * sendmail: the nodemailer wrapper of [src/index.js]

    The repository is one ES module (present in two copies, [src/index.js]
    and [src/unnamed/part_001]) that builds a nodemailer transporter at load
    time and exports one async function, [mail].  The library nodemailer is
    not part of the repository: its two entry points used here,
    [createTransport] and [transporter.sendMail], are the effects of a small
    free monad, and the behaviour of the SMTP endpoint is a parameter of the
    interpreter. *)

From Stdlib Require Import String List ZArith Bool Lia.
From ExtLib Require Import Structures.Monad Structures.MonadExc.
Import ListNotations.
Import MonadNotation.
Local Open Scope string_scope.
Local Open Scope list_scope.
Local Open Scope monad_scope.
Set Warnings "-register-all".

(** ** JavaScript values *)

(** The fragment of JavaScript values that reaches [mail]: its arguments
    (documented as strings, [undefined] when an argument is missing), the
    value [sendMail] resolves with, and thrown values. *)
Inductive value : Type :=
| VUndefined
| VNull
| VBoolean (b : bool)
| VNumber (n : Z)
| VString (s : string)
| VObject (props : list (string * value)).

Fixpoint own_property (p : string) (props : list (string * value)) : option value :=
  match props with
  | [] => None
  | (q, v) :: rest => if String.eqb p q then Some v else own_property p rest
  end.

(** The [TypeError] raised when a property of [undefined] or [null] is read. *)
Definition TypeError (message : string) : value :=
  VObject [("name", VString "TypeError"); ("message", VString message)].

(** A settled promise. *)
Inductive settlement (R : Type) : Type :=
| Fulfilled (r : R)
| Rejected (e : value).
Arguments Fulfilled {R} r.
Arguments Rejected {R} e.

(** ** nodemailer's interface *)

(** The [tls] sub-object of the options; a key that the literal does not
    write is [None]. *)
Record TlsOptions : Type := { rejectUnauthorized : option bool }.

(** The options object given to [nodemailer.createTransport]. *)
Record TransportOptions : Type := {
  host : string;
  port : Z;
  secure : bool;
  tls : option TlsOptions
}.

(** The object literal [{ from, to, subject, html }] given to [sendMail]. *)
Record Message : Type := {
  from : value;
  to : value;
  subject : value;
  html : value
}.

(** A transporter object is identified by its rank among the objects that
    [createTransport] has built. *)
Definition handle : Type := nat.

(** ** Programs *)

(** Synchronous code interleaved with the effects the module performs.
    [SendMail t m k] is [await t.sendMail(m)]: the call is made, the caller
    is suspended, and [k] resumes with the way the returned promise
    settled. *)
Inductive js (R : Type) : Type :=
| Return (r : R)
| Throw (e : value)
| CreateTransport (o : TransportOptions) (k : handle -> js R)
| SendMail (t : handle) (m : Message) (k : settlement value -> js R)
| ConsoleLog (args : list value) (k : js R)
| ConsoleError (args : list value) (k : js R).
Arguments Return {R} r.
Arguments Throw {R} e.
Arguments CreateTransport {R} o k.
Arguments SendMail {R} t m k.
Arguments ConsoleLog {R} args k.
Arguments ConsoleError {R} args k.

Fixpoint js_bind {A B : Type} (p : js A) (f : A -> js B) : js B :=
  match p with
  | Return r => f r
  | Throw e => Throw e
  | CreateTransport o k => CreateTransport o (fun t => js_bind (k t) f)
  | SendMail t m k => SendMail t m (fun s => js_bind (k s) f)
  | ConsoleLog args k => ConsoleLog args (js_bind k f)
  | ConsoleError args k => ConsoleError args (js_bind k f)
  end.

(** [try { p } catch (error) { h error }]. *)
Fixpoint try_catch {R : Type} (p : js R) (h : value -> js R) : js R :=
  match p with
  | Return r => Return r
  | Throw e => h e
  | CreateTransport o k => CreateTransport o (fun t => try_catch (k t) h)
  | SendMail t m k => SendMail t m (fun s => try_catch (k s) h)
  | ConsoleLog args k => ConsoleLog args (try_catch k h)
  | ConsoleError args k => ConsoleError args (try_catch k h)
  end.

#[export] Instance Monad_js : Monad js :=
  {| ret := @Return; bind := @js_bind |}.

#[export] Instance Exception_js : MonadExc value js :=
  {| raise := @Throw; catch := @try_catch |}.

(** [nodemailer.createTransport(o)]. *)
Definition createTransport (o : TransportOptions) : js handle :=
  CreateTransport o Return.

(** [await t.sendMail(m)]: the value the promise is fulfilled with, or the
    rejection reason thrown at the [await]. *)
Definition sendMail (t : handle) (m : Message) : js value :=
  SendMail t m (fun s =>
    match s with
    | Fulfilled info => Return info
    | Rejected e => Throw e
    end).

Definition console_log (args : list value) : js unit :=
  ConsoleLog args (Return tt).

Definition console_error (args : list value) : js unit :=
  ConsoleError args (Return tt).

(** [v.p] for a property [p] that no prototype defines (as [messageId]):
    reading it from [undefined] or [null] throws, an object gives its own
    property or [undefined], any other primitive gives [undefined]. *)
Definition get_property (v : value) (p : string) : js value :=
  match v with
  | VUndefined =>
      Throw (TypeError ("Cannot read properties of undefined (reading '" ++ p ++ "')")%string)
  | VNull =>
      Throw (TypeError ("Cannot read properties of null (reading '" ++ p ++ "')")%string)
  | VObject props =>
      Return (match own_property p props with Some x => x | None => VUndefined end)
  | _ => Return VUndefined
  end.

(** ** The two copies of the module *)

Module Index.

(** [src/index.js], lines 4-8. *)
Definition transporter_options : TransportOptions :=
  {| host := "localhost";
     port := 25;
     secure := false;
     tls := None |}.

(** Evaluation of the module body: [const transporter = ...]. *)
Definition load : js handle := createTransport transporter_options.

(** [src/index.js], lines 17-31; [transporter] is the module constant the
    function closes over. *)
Definition mail (transporter : handle) (to from subject html : value) : js value :=
  catch
    (info <- sendMail transporter
               {| from := from; to := to; subject := subject; html := html |} ;;
     messageId <- get_property info "messageId" ;;
     console_log [VString "Message sent: %s"; messageId] ;;
     ret info)
    (fun error =>
       console_error [VString "Error sending email:"; error] ;;
       raise error).

End Index.

Module Part001.

(** [src/unnamed/part_001], lines 4-12. *)
Definition transporter_options : TransportOptions :=
  {| host := "localhost";
     port := 25;
     secure := false;
     tls := Some {| rejectUnauthorized := Some false |} |}.

Definition load : js handle := createTransport transporter_options.

(** [src/unnamed/part_001], lines 21-35. *)
Definition mail (transporter : handle) (to from subject html : value) : js value :=
  catch
    (info <- sendMail transporter
               {| from := from; to := to; subject := subject; html := html |} ;;
     messageId <- get_property info "messageId" ;;
     console_log [VString "Message sent: %s"; messageId] ;;
     ret info)
    (fun error =>
       console_error [VString "Error sending email:"; error] ;;
       raise error).

End Part001.

(** ** The world outside the module *)

Inductive stream : Type := Stdout | Stderr.

(** What the module can change: the transporter objects nodemailer has
    built, the submissions [sendMail] has received, and the console. *)
Record world : Type := {
  transports : list TransportOptions;
  outbox : list (handle * Message);
  console : list (stream * list value)
}.

Definition empty_world : world :=
  {| transports := []; outbox := []; console := [] |}.

Definition add_transport (o : TransportOptions) (w : world) : world :=
  {| transports := transports w ++ [o]; outbox := outbox w; console := console w |}.

Definition add_submission (t : handle) (m : Message) (w : world) : world :=
  {| transports := transports w; outbox := outbox w ++ [(t, m)]; console := console w |}.

Definition add_line (s : stream) (args : list value) (w : world) : world :=
  {| transports := transports w; outbox := outbox w; console := console w ++ [(s, args)] |}.

(** The SMTP endpoint behind nodemailer: how the promise of a [sendMail]
    call settles, given the world in which the submission was received (the
    submission itself is the last entry of its outbox). *)
Definition transport : Type := world -> handle -> Message -> settlement value.

(** ** Sequential execution *)

(** Execution against a transport that settles every submission before
    anything else happens. *)
Fixpoint run {R : Type} (T : transport) (p : js R) (w : world) : settlement R * world :=
  match p with
  | Return r => (Fulfilled r, w)
  | Throw e => (Rejected e, w)
  | CreateTransport o k => run T (k (length (transports w))) (add_transport o w)
  | SendMail t m k =>
      let w' := add_submission t m w in run T (k (T w' t m)) w'
  | ConsoleLog args k => run T k (add_line Stdout args w)
  | ConsoleError args k => run T k (add_line Stderr args w)
  end.

(** The four arguments of one call, in the order of the parameter list. *)
Definition arguments : Type := (value * value * value * value)%type.

Definition message_of (a : arguments) : Message :=
  let '(to, from, subject, html) := a in
  {| from := from; to := to; subject := subject; html := html |}.

Definition apply_mail (mail : value -> value -> value -> value -> js value)
    (a : arguments) : js value :=
  let '(to, from, subject, html) := a in mail to from subject html.

(** How the transport settles the submission of a call made with arguments
    [a] in world [w]. *)
Definition response (T : transport) (t : handle) (a : arguments) (w : world) :
    settlement value :=
  T (add_submission t (message_of a) w) t (message_of a).

(** A caller that invokes the exported function several times, each call
    settling before the next is made; the results are dropped. *)
Fixpoint run_calls (T : transport)
    (mail : value -> value -> value -> value -> js value)
    (calls : list arguments) (w : world) : world :=
  match calls with
  | [] => w
  | a :: rest => run_calls T mail rest (snd (run T (apply_mail mail a) w))
  end.

(** A process that imports the module, which evaluates its body, and then
    makes the given calls. *)
Definition session (T : transport) (load : js handle)
    (mail : handle -> value -> value -> value -> value -> js value)
    (calls : list arguments) (w : world) : world :=
  match run T load w with
  | (Fulfilled transporter, w') => run_calls T (mail transporter) calls w'
  | (Rejected _, w') => w'
  end.

(** ** Calls in flight *)

(** A program runs synchronously up to its next [await] and is parked there
    until the promise it awaits settles. *)
Inductive suspension (R : Type) : Type :=
| Settled (s : settlement R)
| Awaiting (t : handle) (m : Message) (k : settlement value -> js R).
Arguments Settled {R} s.
Arguments Awaiting {R} t m k.

Fixpoint advance {R : Type} (p : js R) (w : world) : suspension R * world :=
  match p with
  | Return r => (Settled (Fulfilled r), w)
  | Throw e => (Settled (Rejected e), w)
  | CreateTransport o k => advance (k (length (transports w))) (add_transport o w)
  | SendMail t m k => (Awaiting t m k, add_submission t m w)
  | ConsoleLog args k => advance k (add_line Stdout args w)
  | ConsoleError args k => advance k (add_line Stderr args w)
  end.

(** The event loop as far as this module is concerned: the world, and the
    promise of every call of [mail] made so far, by call number. *)
Record loop : Type := {
  outside : world;
  calls : list (suspension value)
}.

Definition idle (w : world) : loop := {| outside := w; calls := [] |}.

Fixpoint update_nth {A : Type} (i : nat) (x : A) (l : list A) : list A :=
  match l, i with
  | [], _ => []
  | _ :: rest, O => x :: rest
  | y :: rest, S i' => y :: update_nth i' x rest
  end.

(** What can happen next: the caller makes one more call, or nodemailer
    settles the promise a parked call is waiting for. *)
Inductive action : Type :=
| Invoke (a : arguments)
| Settle (i : nat) (r : settlement value).

(** [transporter] is the module constant of [src/index.js]. *)
Definition step (transporter : handle) (l : loop) (x : action) : option loop :=
  match x with
  | Invoke a =>
      let '(s, w) := advance (apply_mail (Index.mail transporter) a) (outside l) in
      Some {| outside := w; calls := calls l ++ [s] |}
  | Settle i r =>
      match nth_error (calls l) i with
      | Some (Awaiting _ _ k) =>
          let '(s, w) := advance (k r) (outside l) in
          Some {| outside := w; calls := update_nth i s (calls l) |}
      | _ => None
      end
  end.

Fixpoint steps (transporter : handle) (l : loop) (xs : list action) : option loop :=
  match xs with
  | [] => Some l
  | x :: rest =>
      match step transporter l x with
      | Some l' => steps transporter l' rest
      | None => None
      end
  end.

Definition in_flight (l : loop) (i : nat) : bool :=
  match nth_error (calls l) i with
  | Some (Awaiting _ _ _) => true
  | _ => false
  end.

Definition settles (x : action) (i : nat) : bool :=
  match x with
  | Settle j _ => Nat.eqb i j
  | Invoke _ => false
  end.

(** A parked call whose continuation, once resumed, writes one console
    line and runs to the end, without awaiting anything else. *)
Definition resumes_to_completion (c : suspension value) : Prop :=
  match c with
  | Settled _ => True
  | Awaiting _ _ k =>
      forall r w, exists s out args,
        advance (k r) w = (Settled s, add_line out args w)
  end.

(** ** Vocabulary of the statements *)

Definition message_id (info : value) : option string :=
  match info with
  | VObject props =>
      match own_property "messageId" props with
      | Some (VString id) => Some id
      | _ => None
      end
  | _ => None
  end.

Definition delivery_identifier (result : settlement value) : option string :=
  match result with
  | Fulfilled info => message_id info
  | Rejected _ => None
  end.

(** nodemailer's SMTP transport fulfils the promise of [sendMail] with an
    info object whose [messageId] is the Message-ID it generated for the
    message, a non-empty string. *)
Definition assigns_message_id (T : transport) : Prop :=
  forall w t m info,
    T w t m = Fulfilled info ->
    exists id, message_id info = Some id /\ id <> "".

(** The weaker half of that contract: what a submission is fulfilled with
    is an object. *)
Definition fulfils_with_object (T : transport) : Prop :=
  forall w t m info,
    T w t m = Fulfilled info -> exists props, info = VObject props.

(** The line a call leaves on the console, read off the way the transport
    settled its submission. *)
Definition diagnostic (s : settlement value) : stream * list value :=
  match s with
  | Rejected e => (Stderr, [VString "Error sending email:"; e])
  | Fulfilled VUndefined =>
      (Stderr, [VString "Error sending email:";
                TypeError "Cannot read properties of undefined (reading 'messageId')"])
  | Fulfilled VNull =>
      (Stderr, [VString "Error sending email:";
                TypeError "Cannot read properties of null (reading 'messageId')"])
  | Fulfilled (VObject props) =>
      (Stdout, [VString "Message sent: %s";
                match own_property "messageId" props with
                | Some x => x
                | None => VUndefined
                end])
  | Fulfilled _ => (Stdout, [VString "Message sent: %s"; VUndefined])
  end.

(** Node verifies the certificate of the server during the STARTTLS upgrade
    unless the [tls] options carry [rejectUnauthorized: false]; nodemailer
    hands the [tls] sub-object to Node as it is. *)
Definition relaxed_certificate_validation (o : TransportOptions) : bool :=
  match tls o with
  | Some {| rejectUnauthorized := Some false |} => true
  | _ => false
  end.

(** ** Vocabulary of the further statements *)

(** [undefined] and [null], the two values a property cannot be read from. *)
Definition nullish (v : value) : bool :=
  match v with
  | VUndefined | VNull => true
  | _ => false
  end.

(** What a call settles with, read off the way the transport settled its
    submission. *)
Definition outcome (s : settlement value) : settlement value :=
  match s with
  | Rejected e => Rejected e
  | Fulfilled VUndefined =>
      Rejected (TypeError "Cannot read properties of undefined (reading 'messageId')")
  | Fulfilled VNull =>
      Rejected (TypeError "Cannot read properties of null (reading 'messageId')")
  | Fulfilled info => Fulfilled info
  end.

(** A parked call whose continuation is the rest of [mail] after its
    [await]. *)
Definition mail_continuation (c : suspension value) : Prop :=
  match c with
  | Settled _ => True
  | Awaiting _ _ k =>
      forall r w,
        advance (k r) w =
        (Settled (outcome r), add_line (fst (diagnostic r)) (snd (diagnostic r)) w)
  end.

Definition awaiting (c : suspension value) : bool :=
  match c with
  | Awaiting _ _ _ => true
  | Settled _ => false
  end.

(** The number of calls still parked. *)
Definition parked (l : loop) : nat := length (filter awaiting (calls l)).

(** The arguments of the calls made in a sequence of steps, in order. *)
Fixpoint invocations (xs : list action) : list arguments :=
  match xs with
  | [] => []
  | Invoke a :: rest => a :: invocations rest
  | Settle _ _ :: rest => invocations rest
  end.

(** A transport that answers every submission the same way. *)
Definition answer (r : settlement value) : transport := fun _ _ _ => r.

(** ** Sample transports *)

Definition sample_info : value := VObject [("messageId", VString "<1@localhost>")].

Definition accept_all : transport := fun _ _ _ => Fulfilled sample_info.

Definition connection_refused : value :=
  VObject [("code", VString "ECONNREFUSED");
           ("message", VString "connect ECONNREFUSED 127.0.0.1:25")].

Definition refuse_all : transport := fun _ _ _ => Rejected connection_refused.

Definition self_signed_certificate : value :=
  VObject [("code", VString "DEPTH_ZERO_SELF_SIGNED_CERT");
           ("message", VString "self-signed certificate")].

Definition no_such_transporter : value :=
  VObject [("message", VString "no such transporter")].

(** The endpoint the README sets up: a local Postfix that offers STARTTLS
    with its default self-signed certificate.  The upgrade, and with it the
    submission, succeeds only through a transporter whose options relax
    certificate validation. *)
Definition self_signed_endpoint : transport :=
  fun w t _ =>
    match nth_error (transports w) t with
    | Some o =>
        if relaxed_certificate_validation o
        then Fulfilled sample_info
        else Rejected self_signed_certificate
    | None => Rejected no_such_transporter
    end.

Definition no_recipients : value :=
  VObject [("code", VString "EENVELOPE");
           ("message", VString "No recipients defined")].

(** A transport that refuses a message without a recipient, as nodemailer
    does when it builds the envelope. *)
Definition strict_envelope : transport :=
  fun _ _ m =>
    match to m with
    | VString "" | VUndefined | VNull => Rejected no_recipients
    | _ => Fulfilled sample_info
    end.

Definition sample_arguments : arguments :=
  (VString "recipient@gmail.com", VString "support@mail.fiery.tools",
   VString "Test Email from Contabo VPS", VString "<h1>Hello World!</h1>").

(** The event loop after two calls with the sample arguments, both parked. *)
Definition two_in_flight : loop :=
  match steps 0 (idle empty_world) [Invoke sample_arguments; Invoke sample_arguments] with
  | Some l => l
  | None => idle empty_world
  end.

(** * Runs on concrete inputs *)

Example mail_accepted_example :
  run accept_all (apply_mail (Index.mail 0) sample_arguments) empty_world
  = (Fulfilled sample_info,
     {| transports := [];
        outbox := [(0, {| from := VString "support@mail.fiery.tools";
                          to := VString "recipient@gmail.com";
                          subject := VString "Test Email from Contabo VPS";
                          html := VString "<h1>Hello World!</h1>" |})];
        console := [(Stdout, [VString "Message sent: %s"; VString "<1@localhost>"])] |}).
Proof. reflexivity. Qed.

Example mail_refused_example :
  run refuse_all (apply_mail (Index.mail 0) sample_arguments) empty_world
  = (Rejected connection_refused,
     {| transports := [];
        outbox := [(0, message_of sample_arguments)];
        console := [(Stderr, [VString "Error sending email:"; connection_refused])] |}).
Proof. reflexivity. Qed.

Example mail_undefined_info_example :
  fst (run (fun _ _ _ => Fulfilled VUndefined)
         (apply_mail (Index.mail 0) sample_arguments) empty_world)
  = Rejected (TypeError "Cannot read properties of undefined (reading 'messageId')").
Proof. reflexivity. Qed.

(** * One call, run to completion *)

Section Sequential.

Variable T : transport.
Variable t : handle.
Variables rcpt sender subj body : value.

(** The world after the call: one more submission, one more console line. *)
Lemma run_mail_world (w : world) :
  snd (run T (Index.mail t rcpt sender subj body) w) =
  add_line (fst (diagnostic (response T t (rcpt, sender, subj, body) w)))
    (snd (diagnostic (response T t (rcpt, sender, subj, body) w)))
    (add_submission t (message_of (rcpt, sender, subj, body)) w).
Proof.
  unfold Index.mail, sendMail, response, message_of. cbn.
  destruct (T _ t _) as [info | e]; [destruct info |]; reflexivity.
Qed.

Lemma run_mail_rejected (w : world) (e : value) :
  response T t (rcpt, sender, subj, body) w = Rejected e ->
  run T (Index.mail t rcpt sender subj body) w =
  (Rejected e,
   add_line Stderr [VString "Error sending email:"; e]
     (add_submission t (message_of (rcpt, sender, subj, body)) w)).
Proof.
  unfold Index.mail, sendMail, response, message_of. cbn.
  intros ->. reflexivity.
Qed.

Lemma run_mail_fulfilled (w : world) (props : list (string * value)) :
  response T t (rcpt, sender, subj, body) w = Fulfilled (VObject props) ->
  fst (run T (Index.mail t rcpt sender subj body) w) = Fulfilled (VObject props).
Proof.
  unfold Index.mail, sendMail, response, message_of. cbn.
  intros ->. reflexivity.
Qed.

(** Why a call can fail: the transport rejected the submission, or it
    fulfilled it with [undefined] or [null] and reading [info.messageId]
    threw. *)
Lemma run_mail_failure (w : world) (e : value) :
  fst (run T (Index.mail t rcpt sender subj body) w) = Rejected e ->
  response T t (rcpt, sender, subj, body) w = Rejected e \/
  response T t (rcpt, sender, subj, body) w = Fulfilled VUndefined \/
  response T t (rcpt, sender, subj, body) w = Fulfilled VNull.
Proof.
  unfold Index.mail, sendMail, response, message_of. cbn.
  destruct (T _ t _) as [info | e']; [destruct info |]; cbn;
    intros H; try discriminate H; auto.
Qed.

End Sequential.

Lemma message_id_object (info : value) (id : string) :
  message_id info = Some id -> exists props, info = VObject props.
Proof.
  destruct info; cbn; try discriminate. intros _. eexists. reflexivity.
Qed.

Lemma accept_all_assigns_message_id : assigns_message_id accept_all.
Proof.
  intros w t m info H. injection H as <-.
  exists "<1@localhost>". split; [reflexivity | discriminate].
Qed.

Lemma accept_all_fulfils_with_object : fulfils_with_object accept_all.
Proof.
  intros w t m info H. injection H as <-. eexists. reflexivity.
Qed.

(** ** C1 *)

(** C1. Whatever the four arguments, when the transport accepts the
    submitted message (the promise of [sendMail] is fulfilled, by a
    transport that assigns message ids as nodemailer does), [mail] is
    fulfilled too, with the very value the transport produced, and the
    [messageId] read from that result is a non-empty string. *)
Theorem mail_returns_delivery_identifier
    (T : transport) (t : handle) (to from subject html info : value) (w : world) :
  assigns_message_id T ->
  response T t (to, from, subject, html) w = Fulfilled info ->
  fst (run T (Index.mail t to from subject html) w) = Fulfilled info /\
  exists id,
    delivery_identifier (fst (run T (Index.mail t to from subject html) w)) = Some id /\
    id <> "".
Proof.
  intros HT Hacc.
  destruct (HT _ _ _ _ Hacc) as (id & Hid & Hne).
  destruct (message_id_object _ _ Hid) as (props & ->).
  rewrite (run_mail_fulfilled T t to from subject html w props Hacc).
  split; [reflexivity |].
  exists id. split; [exact Hid | exact Hne].
Qed.

Lemma mail_returns_delivery_identifier_witness :
  fst (run accept_all (apply_mail (Index.mail 0) sample_arguments) empty_world)
    = Fulfilled sample_info /\
  exists id,
    delivery_identifier
      (fst (run accept_all (apply_mail (Index.mail 0) sample_arguments) empty_world))
      = Some id /\
    id <> "".
Proof.
  apply (mail_returns_delivery_identifier accept_all 0
           (VString "recipient@gmail.com") (VString "support@mail.fiery.tools")
           (VString "Test Email from Contabo VPS") (VString "<h1>Hello World!</h1>")
           sample_info empty_world).
  - exact accept_all_assigns_message_id.
  - reflexivity.
Defined.

(** ** C2 *)

(** C2. When the transport rejects the submission with an error [e], the
    call is rejected with that same [e]; before that exactly one line was
    written, on the error stream, carrying [e]. *)
Theorem mail_propagates_transport_error
    (T : transport) (t : handle) (to from subject html e : value) (w : world) :
  response T t (to, from, subject, html) w = Rejected e ->
  fst (run T (Index.mail t to from subject html) w) = Rejected e /\
  console (snd (run T (Index.mail t to from subject html) w)) =
    console w ++ [(Stderr, [VString "Error sending email:"; e])].
Proof.
  intros H.
  rewrite (run_mail_rejected T t to from subject html w e H).
  split; reflexivity.
Qed.

Lemma mail_propagates_transport_error_witness :
  fst (run refuse_all (apply_mail (Index.mail 0) sample_arguments) empty_world)
    = Rejected connection_refused /\
  console (snd (run refuse_all (apply_mail (Index.mail 0) sample_arguments) empty_world))
    = console empty_world ++ [(Stderr, [VString "Error sending email:"; connection_refused])].
Proof.
  apply (mail_propagates_transport_error refuse_all 0
           (VString "recipient@gmail.com") (VString "support@mail.fiery.tools")
           (VString "Test Email from Contabo VPS") (VString "<h1>Hello World!</h1>")
           connection_refused empty_world).
  reflexivity.
Defined.

(** ** C4 *)

(** C4. Whatever the four arguments (strings or not), the call hands the
    transporter exactly one object whose [from], [to], [subject] and [html]
    fields are the arguments of those names, as given. *)
Theorem mail_forwards_arguments_unchanged
    (T : transport) (t : handle) (to from subject html : value) (w : world) :
  outbox (snd (run T (Index.mail t to from subject html) w)) =
  outbox w ++ [(t, {| from := from; to := to; subject := subject; html := html |})].
Proof.
  rewrite run_mail_world. reflexivity.
Qed.

(** ** C6 *)

(** C6. Whether the transport fulfils or rejects, one call adds exactly one
    submission to the transport and exactly one line to the console, and
    builds no transporter. *)
Theorem mail_one_submission_one_log_line
    (T : transport) (t : handle) (to from subject html : value) (w : world) :
  let w' := snd (run T (Index.mail t to from subject html) w) in
  transports w' = transports w /\
  outbox w' = outbox w ++ [(t, message_of (to, from, subject, html))] /\
  (exists line, console w' = console w ++ [line]) /\
  length (outbox w') = S (length (outbox w)) /\
  length (console w') = S (length (console w)).
Proof.
  cbv zeta. rewrite run_mail_world. cbn.
  repeat split.
  - eexists. rewrite <- surjective_pairing. reflexivity.
  - rewrite length_app. cbn. lia.
  - rewrite length_app. cbn. lia.
Qed.

(** ** C10 *)

Lemma strict_envelope_fulfils_with_object : fulfils_with_object strict_envelope.
Proof.
  intros w t m info. unfold strict_envelope.
  destruct (to m) as [ | | b | n | s | props ]; try discriminate;
    try (intros H; injection H as <-; eexists; reflexivity).
  destruct s; [discriminate |].
  intros H; injection H as <-; eexists; reflexivity.
Qed.

(** C10. For every four argument values, [undefined] and the empty string
    included, the first thing [mail] does is to hand them to [sendMail]:
    nothing is tested and nothing is thrown before that.  Against a
    transport that keeps nodemailer's interface (a fulfilled submission
    carries an info object), a call that fails fails with the rejection of
    the transport. *)
Theorem mail_performs_no_argument_check
    (T : transport) (t : handle) (to from subject html : value) (w : world) :
  fulfils_with_object T ->
  (exists k,
     Index.mail t to from subject html =
     SendMail t (message_of (to, from, subject, html)) k) /\
  (forall e,
     fst (run T (Index.mail t to from subject html) w) = Rejected e ->
     response T t (to, from, subject, html) w = Rejected e).
Proof.
  intros HT. split.
  - eexists. reflexivity.
  - intros e H.
    destruct (run_mail_failure T t to from subject html w e H) as [H1 | [H1 | H1]].
    + exact H1.
    + destruct (HT _ _ _ _ H1) as (props & Hp). discriminate Hp.
    + destruct (HT _ _ _ _ H1) as (props & Hp). discriminate Hp.
Qed.

Lemma mail_performs_no_argument_check_witness :
  (exists k,
     Index.mail 0 VUndefined (VString "") VUndefined (VString "") =
     SendMail 0 (message_of (VUndefined, VString "", VUndefined, VString "")) k) /\
  (forall e,
     fst (run strict_envelope
            (Index.mail 0 VUndefined (VString "") VUndefined (VString "")) empty_world)
       = Rejected e ->
     response strict_envelope 0 (VUndefined, VString "", VUndefined, VString "")
       empty_world = Rejected e).
Proof.
  apply (mail_performs_no_argument_check strict_envelope 0
           VUndefined (VString "") VUndefined (VString "") empty_world).
  exact strict_envelope_fulfils_with_object.
Defined.

Example mail_missing_recipient_example :
  run strict_envelope (Index.mail 0 VUndefined (VString "") VUndefined (VString ""))
      empty_world
  = (Rejected no_recipients,
     {| transports := [];
        outbox := [(0, {| from := VString ""; to := VUndefined;
                          subject := VUndefined; html := VString "" |})];
        console := [(Stderr, [VString "Error sending email:"; no_recipients])] |}).
Proof. reflexivity. Qed.

(** * Several calls *)

Lemma run_calls_transports (T : transport) (t : handle) (cs : list arguments) :
  forall w, transports (run_calls T (Index.mail t) cs w) = transports w.
Proof.
  induction cs as [| [[[rcpt sender] subj] body] rest IH]; intros w;
    cbn [run_calls apply_mail].
  - reflexivity.
  - rewrite IH, run_mail_world. reflexivity.
Qed.

Lemma run_calls_outbox (T : transport) (t : handle) (cs : list arguments) :
  forall w,
    outbox (run_calls T (Index.mail t) cs w) =
    outbox w ++ map (fun a => (t, message_of a)) cs.
Proof.
  induction cs as [| [[[rcpt sender] subj] body] rest IH]; intros w;
    cbn [run_calls apply_mail map].
  - rewrite app_nil_r. reflexivity.
  - rewrite IH, run_mail_world. cbn. rewrite <- app_assoc. reflexivity.
Qed.

(** ** C7 *)

(** C7. Two calls with the same arguments put two submissions of the same
    message in front of the transport, whether the second call is made
    after the first has settled or while it is still in flight; in the
    latter case both calls are parked, each on its own promise. *)
Theorem mail_twice_submits_twice
    (T : transport) (t : handle) (a : arguments) (w : world) :
  outbox (run_calls T (Index.mail t) [a; a] w) =
    outbox w ++ [(t, message_of a); (t, message_of a)] /\
  exists l,
    steps t (idle w) [Invoke a; Invoke a] = Some l /\
    outbox (outside l) = outbox w ++ [(t, message_of a); (t, message_of a)] /\
    in_flight l 0 = true /\
    in_flight l 1 = true.
Proof.
  split.
  - rewrite run_calls_outbox. reflexivity.
  - destruct a as [[[rcpt sender] subj] body].
    eexists. split; [reflexivity |].
    cbn. rewrite <- app_assoc. repeat split.
Qed.

(** ** C5 *)

Lemma session_index (T : transport) (cs : list arguments) (w : world) :
  session T Index.load Index.mail cs w =
  run_calls T (Index.mail (length (transports w))) cs
    (add_transport Index.transporter_options w).
Proof. reflexivity. Qed.

Lemma session_part001 (T : transport) (cs : list arguments) (w : world) :
  session T Part001.load Part001.mail cs w =
  run_calls T (Index.mail (length (transports w))) cs
    (add_transport Part001.transporter_options w).
Proof. reflexivity. Qed.

(** C5. Loading the module builds one transporter, with host [localhost],
    port 25 and [secure: false] (the connection starts in plain text and is
    upgraded after connecting); however many calls follow, no further
    transporter is built, the options of the one built stay as they were,
    and every submission goes to that one transporter.  This holds for both
    copies of the module. *)
Theorem transporter_constructed_once_and_reused
    (T : transport) (cs : list arguments) (w : world) :
  let transporter := length (transports w) in
  (transports (session T Index.load Index.mail cs w) =
     transports w ++ [Index.transporter_options] /\
   outbox (session T Index.load Index.mail cs w) =
     outbox w ++ map (fun a => (transporter, message_of a)) cs) /\
  (transports (session T Part001.load Part001.mail cs w) =
     transports w ++ [Part001.transporter_options] /\
   outbox (session T Part001.load Part001.mail cs w) =
     outbox w ++ map (fun a => (transporter, message_of a)) cs) /\
  (host Index.transporter_options = "localhost" /\
   port Index.transporter_options = 25%Z /\
   secure Index.transporter_options = false) /\
  (host Part001.transporter_options = "localhost" /\
   port Part001.transporter_options = 25%Z /\
   secure Part001.transporter_options = false).
Proof.
  cbv zeta. rewrite session_index, session_part001.
  rewrite !run_calls_transports, !run_calls_outbox.
  repeat split.
Qed.

(** ** C9 *)

(** C9. The two copies export the same function: the same program for
    every transporter and arguments, hence the same result and the same
    effects against every transport.  Their options agree on host, port and
    [secure]; the copy in [part_001] adds [tls: { rejectUnauthorized:
    false }], which [index.js] leaves out. *)
Theorem mail_copies_agree :
  (forall t to from subject html,
     Index.mail t to from subject html = Part001.mail t to from subject html) /\
  (forall T t to from subject html w,
     run T (Index.mail t to from subject html) w =
     run T (Part001.mail t to from subject html) w) /\
  Part001.transporter_options =
    {| host := host Index.transporter_options;
       port := port Index.transporter_options;
       secure := secure Index.transporter_options;
       tls := Some {| rejectUnauthorized := Some false |} |} /\
  tls Index.transporter_options = None.
Proof.
  repeat split.
Qed.

(** ** C3 *)

(** C3 fails for [src/index.js]: its options carry no [tls] entry, so
    certificate validation is not relaxed, and a call through it to an
    endpoint with a self-signed certificate is rejected with the
    certificate error.  The copy in [part_001], which the README
    reproduces, relaxes validation, and the same call is fulfilled. *)
Theorem index_certificate_validation_not_relaxed :
  relaxed_certificate_validation Index.transporter_options = false /\
  relaxed_certificate_validation Part001.transporter_options = true /\
  fst (run self_signed_endpoint
         (transporter <- Index.load ;; apply_mail (Index.mail transporter) sample_arguments)
         empty_world)
    = Rejected self_signed_certificate /\
  fst (run self_signed_endpoint
         (transporter <- Part001.load ;; apply_mail (Part001.mail transporter) sample_arguments)
         empty_world)
    = Fulfilled sample_info.
Proof.
  repeat split.
Qed.

(** * Calls in flight *)

(** Sequential execution is the event loop in which every promise settles
    as soon as it is awaited. *)
Lemma run_advance (T : transport) (R : Type) (p : js R) :
  forall w,
    run T p w =
    match advance p w with
    | (Settled s, w') => (s, w')
    | (Awaiting t m k, w') => run T (k (T w' t m)) w'
    end.
Proof.
  induction p as [r | e | o k IH | t m k IH | args k IH | args k IH];
    intros w; cbn; auto.
Qed.

Lemma nth_error_update_nth_ne (A : Type) (x : A) (l : list A) :
  forall i j, i <> j -> nth_error (update_nth i x l) j = nth_error l j.
Proof.
  induction l as [| y rest IH]; intros [| i] [| j] H; cbn; auto;
    try contradiction.
Qed.

Lemma nth_error_update_nth_eq (A : Type) (x : A) (l : list A) :
  forall i, i < length l -> nth_error (update_nth i x l) i = Some x.
Proof.
  induction l as [| y rest IH]; intros [| i] H; cbn in *; try lia; auto.
  apply IH. lia.
Qed.

Lemma Forall_update_nth (A : Type) (P : A -> Prop) (x : A) (l : list A) :
  forall i, Forall P l -> P x -> Forall P (update_nth i x l).
Proof.
  induction l as [| y rest IH]; intros [| i] Hl Hx; cbn; auto;
    inversion Hl; subst; constructor; auto.
Qed.

Lemma in_flight_awaiting (l : loop) (i : nat) :
  in_flight l i = true ->
  exists t m k, nth_error (calls l) i = Some (Awaiting t m k).
Proof.
  unfold in_flight.
  destruct (nth_error (calls l) i) as [[s | t m k] |]; try discriminate.
  intros _. exists t, m, k. reflexivity.
Qed.

(** A call submits its message and parks; resumed, it runs to the end. *)
Lemma advance_mail (t : handle) (a : arguments) (w : world) :
  exists k,
    advance (apply_mail (Index.mail t) a) w =
      (Awaiting t (message_of a) k, add_submission t (message_of a) w) /\
    resumes_to_completion (Awaiting t (message_of a) k).
Proof.
  destruct a as [[[rcpt sender] subj] body].
  eexists. split; [reflexivity |].
  intros [info | e] w'; [destruct info |]; do 3 eexists; reflexivity.
Qed.

Lemma step_invoke (t : handle) (l : loop) (a : arguments) :
  exists k,
    step t l (Invoke a) =
      Some {| outside := add_submission t (message_of a) (outside l);
              calls := calls l ++ [Awaiting t (message_of a) k] |} /\
    resumes_to_completion (Awaiting t (message_of a) k).
Proof.
  destruct (advance_mail t a (outside l)) as (k & Hk & Hres).
  exists k. split; [| exact Hres].
  unfold step. rewrite Hk. reflexivity.
Qed.

Lemma step_resumes (t : handle) (l l' : loop) (x : action) :
  Forall resumes_to_completion (calls l) ->
  step t l x = Some l' ->
  Forall resumes_to_completion (calls l').
Proof.
  intros Hl Hstep. destruct x as [a | i r].
  - destruct (step_invoke t l a) as (k & Hk & Hres).
    rewrite Hk in Hstep. injection Hstep as <-. cbn.
    apply Forall_app. split; [exact Hl | constructor; [exact Hres | constructor]].
  - unfold step in Hstep.
    destruct (nth_error (calls l) i) as [[s | t' m k] |] eqn:Hi; try discriminate.
    pose proof (proj1 (Forall_forall _ _) Hl _ (nth_error_In _ _ Hi)) as Hk.
    destruct (Hk r (outside l)) as (s & out & args & Hadv).
    rewrite Hadv in Hstep. injection Hstep as <-. cbn.
    apply Forall_update_nth; [exact Hl | exact I].
Qed.

Lemma steps_resumes (t : handle) (xs : list action) :
  forall l l',
    Forall resumes_to_completion (calls l) ->
    steps t l xs = Some l' ->
    Forall resumes_to_completion (calls l').
Proof.
  induction xs as [| x rest IH]; intros l l' Hl H; cbn in H.
  - injection H as <-. exact Hl.
  - destruct (step t l x) as [l1 |] eqn:Hx; [| discriminate].
    eapply IH; [| exact H]. eapply step_resumes; eauto.
Qed.

(** The only step that changes the promise of call [i] is the settlement
    of the submission it awaits. *)
Lemma step_keeps_in_flight (t : handle) (l l' : loop) (x : action) (i : nat) :
  in_flight l i = true ->
  settles x i = false ->
  step t l x = Some l' ->
  in_flight l' i = true.
Proof.
  intros Hi Hx Hstep.
  destruct (in_flight_awaiting l i Hi) as (ti & mi & ki & Hnth).
  destruct x as [a | j r].
  - destruct (step_invoke t l a) as (k & Hk & _).
    rewrite Hk in Hstep. injection Hstep as <-.
    unfold in_flight. cbn.
    rewrite nth_error_app1, Hnth; [reflexivity |].
    apply nth_error_Some. rewrite Hnth. discriminate.
  - cbn in Hx. apply Nat.eqb_neq in Hx.
    unfold step in Hstep.
    destruct (nth_error (calls l) j) as [[s | t' m k] |]; try discriminate.
    destruct (advance (k r) (outside l)) as [s w'].
    injection Hstep as <-.
    unfold in_flight. cbn.
    rewrite nth_error_update_nth_ne, Hnth; [reflexivity | lia].
Qed.

Lemma steps_keep_in_flight (t : handle) (i : nat) (xs : list action) :
  forall l l',
    in_flight l i = true ->
    forallb (fun x => negb (settles x i)) xs = true ->
    steps t l xs = Some l' ->
    in_flight l' i = true.
Proof.
  induction xs as [| x rest IH]; intros l l' Hi Hxs H; cbn in H, Hxs.
  - injection H as <-. exact Hi.
  - apply andb_true_iff in Hxs. destruct Hxs as [Hx Hrest].
    apply negb_true_iff in Hx.
    destruct (step t l x) as [l1 |] eqn:Hstep; [| discriminate].
    eapply IH; [| exact Hrest | exact H].
    eapply step_keeps_in_flight; eauto.
Qed.

(** Settling the submission of a parked call completes that call and
    leaves every other call as it was. *)
Lemma step_settle (t : handle) (l : loop) (i : nat) (r : settlement value) :
  Forall resumes_to_completion (calls l) ->
  in_flight l i = true ->
  exists l',
    step t l (Settle i r) = Some l' /\
    in_flight l' i = false /\
    (forall j, j <> i -> in_flight l' j = in_flight l j) /\
    outbox (outside l') = outbox (outside l).
Proof.
  intros Hl Hi.
  destruct (in_flight_awaiting l i Hi) as (ti & mi & ki & Hnth).
  pose proof (proj1 (Forall_forall _ _) Hl _ (nth_error_In _ _ Hnth)) as Hk.
  destruct (Hk r (outside l)) as (s & out & args & Hadv).
  eexists. split; [| split; [| split]].
  - unfold step. rewrite Hnth, Hadv. reflexivity.
  - unfold in_flight. cbn.
    rewrite nth_error_update_nth_eq; [reflexivity |].
    apply nth_error_Some. rewrite Hnth. discriminate.
  - intros j Hj. unfold in_flight. cbn.
    rewrite nth_error_update_nth_ne; [reflexivity | lia].
  - reflexivity.
Qed.

Lemma reachable_resumes (t : handle) (w : world) (xs : list action) (l : loop) :
  steps t (idle w) xs = Some l ->
  Forall resumes_to_completion (calls l).
Proof.
  apply steps_resumes. constructor.
Qed.

Lemma settle_two (t : handle) (l : loop) (i j : nat) (ri rj : settlement value) :
  Forall resumes_to_completion (calls l) ->
  in_flight l i = true ->
  in_flight l j = true ->
  i <> j ->
  exists l1 l2,
    step t l (Settle i ri) = Some l1 /\
    in_flight l1 i = false /\
    in_flight l1 j = true /\
    step t l1 (Settle j rj) = Some l2 /\
    in_flight l2 i = false /\
    in_flight l2 j = false.
Proof.
  intros Hl Hi Hj Hij.
  destruct (step_settle t l i ri Hl Hi) as (l1 & H1 & Hi1 & Hother1 & _).
  assert (Hj1 : in_flight l1 j = true) by (rewrite Hother1; auto).
  pose proof (step_resumes t l l1 _ Hl H1) as Hl1.
  destruct (step_settle t l1 j rj Hl1 Hj1) as (l2 & H2 & Hj2 & Hother2 & _).
  exists l1, l2. repeat split; auto.
  rewrite Hother2; auto.
Qed.

(** ** C8 *)

(** C8. In any state the event loop can reach, with calls [i] and [j] in
    flight: a further call is started and submitted at once, without
    waiting for the calls in flight and without disturbing them; the two
    calls can complete in either order, each as soon as the transport
    settles its submission; and call [i] stays parked through any sequence
    of later steps, however long, in which the transport does not settle
    its submission (nothing in [mail] ends the wait). *)
Theorem calls_in_flight_are_unconstrained
    (t : handle) (w : world) (before later : list action) (l l' : loop)
    (a : arguments) (i j : nat) (ri rj : settlement value) :
  steps t (idle w) before = Some l ->
  in_flight l i = true ->
  in_flight l j = true ->
  i <> j ->
  forallb (fun x => negb (settles x i)) later = true ->
  steps t l later = Some l' ->
  (exists l1,
     step t l (Invoke a) = Some l1 /\
     outbox (outside l1) = outbox (outside l) ++ [(t, message_of a)] /\
     in_flight l1 (length (calls l)) = true /\
     in_flight l1 i = true /\
     in_flight l1 j = true) /\
  (exists l1 l2,
     step t l (Settle i ri) = Some l1 /\
     in_flight l1 i = false /\
     in_flight l1 j = true /\
     step t l1 (Settle j rj) = Some l2 /\
     in_flight l2 i = false /\
     in_flight l2 j = false) /\
  (exists l1 l2,
     step t l (Settle j rj) = Some l1 /\
     in_flight l1 j = false /\
     in_flight l1 i = true /\
     step t l1 (Settle i ri) = Some l2 /\
     in_flight l2 j = false /\
     in_flight l2 i = false) /\
  in_flight l' i = true.
Proof.
  intros Hreach Hi Hj Hij Hlater Hsteps.
  pose proof (reachable_resumes t w before l Hreach) as Hl.
  split; [| split; [| split]].
  - destruct (step_invoke t l a) as (k & Hk & _).
    eexists. split; [exact Hk |]. cbn.
    split; [reflexivity |].
    split.
    + unfold in_flight. cbn.
      rewrite nth_error_app2, Nat.sub_diag; [reflexivity | lia].
    + split; eapply step_keeps_in_flight; try exact Hk; auto.
  - apply settle_two; auto.
  - apply settle_two; auto.
  - eapply steps_keep_in_flight; eauto.
Qed.

Lemma calls_in_flight_are_unconstrained_witness :
  exists l l',
    steps 0 (idle empty_world) [Invoke sample_arguments; Invoke sample_arguments] = Some l /\
    steps 0 l [Invoke sample_arguments; Settle 1 (Rejected connection_refused)] = Some l' /\
    in_flight l' 0 = true.
Proof.
  eexists. eexists.
  split; [reflexivity |].
  split; [reflexivity |].
  eapply (calls_in_flight_are_unconstrained 0 empty_world
            [Invoke sample_arguments; Invoke sample_arguments]
            [Invoke sample_arguments; Settle 1 (Rejected connection_refused)]
            _ _ sample_arguments 0 1
            (Fulfilled sample_info) (Rejected connection_refused)).
  - reflexivity.
  - reflexivity.
  - reflexivity.
  - discriminate.
  - reflexivity.
  - reflexivity.
Defined.

Example two_calls_complete_out_of_order :
  match steps 0 (idle empty_world)
          [Invoke sample_arguments; Invoke sample_arguments;
           Settle 1 (Rejected connection_refused); Settle 0 (Fulfilled sample_info)] with
  | Some l =>
      calls l = [Settled (Fulfilled sample_info); Settled (Rejected connection_refused)] /\
      console (outside l) =
        [(Stderr, [VString "Error sending email:"; connection_refused]);
         (Stdout, [VString "Message sent: %s"; VString "<1@localhost>"])] /\
      length (outbox (outside l)) = 2
  | None => False
  end.
Proof. repeat split. Qed.

(** * Further properties of [mail] *)

Lemma run_mail_result
    (T : transport) (t : handle) (rcpt sender subj body : value) (w : world) :
  fst (run T (Index.mail t rcpt sender subj body) w) =
  outcome (response T t (rcpt, sender, subj, body) w).
Proof.
  unfold Index.mail, sendMail, response, message_of. cbn.
  destruct (T _ t _) as [info | e]; [destruct info |]; reflexivity.
Qed.

Lemma run_mail_pair
    (T : transport) (t : handle) (rcpt sender subj body : value) (w : world) :
  run T (Index.mail t rcpt sender subj body) w =
  (outcome (response T t (rcpt, sender, subj, body) w),
   add_line (fst (diagnostic (response T t (rcpt, sender, subj, body) w)))
     (snd (diagnostic (response T t (rcpt, sender, subj, body) w)))
     (add_submission t (message_of (rcpt, sender, subj, body)) w)).
Proof.
  rewrite <- run_mail_result, <- run_mail_world.
  apply surjective_pairing.
Qed.

(** X1. When the transport fulfils the submission with [undefined] or
    [null], reading [info.messageId] throws inside the [try] block: the
    call is rejected with that [TypeError], the one console line is the
    error line carrying it, and no success line is written. *)
Theorem mail_rejects_nullish_info
    (T : transport) (t : handle) (to from subject html info : value) (w : world) :
  response T t (to, from, subject, html) w = Fulfilled info ->
  nullish info = true ->
  exists message,
    run T (Index.mail t to from subject html) w =
    (Rejected (TypeError message),
     add_line Stderr [VString "Error sending email:"; TypeError message]
       (add_submission t (message_of (to, from, subject, html)) w)).
Proof.
  intros Hr Hn. rewrite run_mail_pair, Hr.
  destruct info; try discriminate Hn; eexists; reflexivity.
Qed.

Lemma mail_rejects_nullish_info_witness :
  exists message,
    run (answer (Fulfilled VNull)) (apply_mail (Index.mail 0) sample_arguments) empty_world =
    (Rejected (TypeError message),
     add_line Stderr [VString "Error sending email:"; TypeError message]
       (add_submission 0 (message_of sample_arguments) empty_world)).
Proof.
  apply (mail_rejects_nullish_info (answer (Fulfilled VNull)) 0
           (VString "recipient@gmail.com") (VString "support@mail.fiery.tools")
           (VString "Test Email from Contabo VPS") (VString "<h1>Hello World!</h1>")
           VNull empty_world).
  - reflexivity.
  - reflexivity.
Defined.

(** X2. When the transport fulfils the submission with any value other
    than [undefined] and [null], the call is fulfilled with that value and
    the one console line is the success line carrying whatever
    [info.messageId] reads as; an info object without a [messageId] is
    still a success, logged with [undefined]. *)
Theorem mail_logs_what_message_id_reads_as
    (T : transport) (t : handle) (to from subject html info : value) (w : world) :
  response T t (to, from, subject, html) w = Fulfilled info ->
  nullish info = false ->
  exists id,
    get_property info "messageId" = Return id /\
    run T (Index.mail t to from subject html) w =
    (Fulfilled info,
     add_line Stdout [VString "Message sent: %s"; id]
       (add_submission t (message_of (to, from, subject, html)) w)) /\
    (forall props, info = VObject props ->
     own_property "messageId" props = None -> id = VUndefined).
Proof.
  intros Hr Hn. rewrite run_mail_pair, Hr.
  destruct info; try discriminate Hn; eexists;
    (split; [reflexivity | split; [reflexivity |]]);
    intros props' Hp; try discriminate Hp.
  injection Hp as ->. intros ->. reflexivity.
Qed.

Lemma mail_logs_what_message_id_reads_as_witness :
  exists id,
    get_property (VObject [("response", VString "250 2.0.0 Ok")]) "messageId" = Return id /\
    run (answer (Fulfilled (VObject [("response", VString "250 2.0.0 Ok")])))
        (apply_mail (Index.mail 0) sample_arguments) empty_world =
    (Fulfilled (VObject [("response", VString "250 2.0.0 Ok")]),
     add_line Stdout [VString "Message sent: %s"; id]
       (add_submission 0 (message_of sample_arguments) empty_world)) /\
    (forall props, VObject [("response", VString "250 2.0.0 Ok")] = VObject props ->
     own_property "messageId" props = None -> id = VUndefined).
Proof.
  apply (mail_logs_what_message_id_reads_as
           (answer (Fulfilled (VObject [("response", VString "250 2.0.0 Ok")]))) 0
           (VString "recipient@gmail.com") (VString "support@mail.fiery.tools")
           (VString "Test Email from Contabo VPS") (VString "<h1>Hello World!</h1>")
           (VObject [("response", VString "250 2.0.0 Ok")]) empty_world).
  - reflexivity.
  - reflexivity.
Defined.

(** X3. A call is fulfilled only when the transport fulfilled its
    submission, and then with the very value the transport produced: [mail]
    never turns a rejection into a success and never puts a value of its
    own in place of the transport's. *)
Theorem mail_success_is_transport_success
    (T : transport) (t : handle) (to from subject html v : value) (w : world) :
  fst (run T (Index.mail t to from subject html) w) = Fulfilled v ->
  response T t (to, from, subject, html) w = Fulfilled v /\ nullish v = false.
Proof.
  rewrite run_mail_result.
  destruct (response T t (to, from, subject, html) w) as [info | e];
    [destruct info |]; cbn; intros H; try discriminate H;
    injection H as <-; split; reflexivity.
Qed.

Lemma mail_success_is_transport_success_witness :
  response accept_all 0 sample_arguments empty_world = Fulfilled sample_info /\
  nullish sample_info = false.
Proof.
  apply (mail_success_is_transport_success accept_all 0
           (VString "recipient@gmail.com") (VString "support@mail.fiery.tools")
           (VString "Test Email from Contabo VPS") (VString "<h1>Hello World!</h1>")
           sample_info empty_world).
  reflexivity.
Defined.

(** X4. The line a call writes agrees with the way it settles: it is on the
    output stream exactly when the call is fulfilled and on the error stream
    exactly when it is rejected, and in the latter case it carries the
    very value the call is rejected with. *)
Theorem mail_console_line_matches_outcome
    (T : transport) (t : handle) (to from subject html : value) (w : world) :
  exists args,
    console (snd (run T (Index.mail t to from subject html) w)) =
    console w ++
      [(match fst (run T (Index.mail t to from subject html) w) with
        | Fulfilled _ => Stdout
        | Rejected _ => Stderr
        end, args)] /\
    (forall e,
       fst (run T (Index.mail t to from subject html) w) = Rejected e ->
       args = [VString "Error sending email:"; e]).
Proof.
  rewrite run_mail_pair. cbn [fst snd].
  destruct (response T t (to, from, subject, html) w) as [info | e];
    [destruct info |]; cbn; eexists; (split; [reflexivity |]);
    intros e' H; try discriminate H; injection H as <-; reflexivity.
Qed.

(** * Further properties of calls in flight *)

Lemma advance_mail_continuation (t : handle) (a : arguments) (w : world) :
  exists k,
    advance (apply_mail (Index.mail t) a) w =
      (Awaiting t (message_of a) k, add_submission t (message_of a) w) /\
    mail_continuation (Awaiting t (message_of a) k).
Proof.
  destruct a as [[[rcpt sender] subj] body].
  eexists. split; [reflexivity |].
  intros [info | e] w'; [destruct info |]; reflexivity.
Qed.

Lemma parked_app (l : list (suspension value)) (c : suspension value) :
  length (filter awaiting (l ++ [c])) =
  length (filter awaiting l) + (if awaiting c then 1 else 0).
Proof.
  rewrite filter_app, length_app. cbn. destruct (awaiting c); reflexivity.
Qed.

Lemma parked_update_nth (s : settlement value) (l : list (suspension value)) :
  forall i t m k,
    nth_error l i = Some (Awaiting t m k) ->
    S (length (filter awaiting (update_nth i (Settled s) l))) =
    length (filter awaiting l).
Proof.
  induction l as [| c rest IH]; intros [| i] t m k H; cbn in H; try discriminate.
  - injection H as ->. reflexivity.
  - cbn. destruct (awaiting c); cbn; [f_equal |]; eapply IH; exact H.
Qed.

Lemma length_update_nth (A : Type) (x : A) (l : list A) :
  forall i, length (update_nth i x l) = length l.
Proof.
  induction l as [| y rest IH]; intros [| i]; cbn; auto.
Qed.

(** One step of the event loop, case by case. *)
Lemma step_accounting (t : handle) (l l' : loop) (x : action) :
  Forall mail_continuation (calls l) ->
  step t l x = Some l' ->
  Forall mail_continuation (calls l') /\
  transports (outside l') = transports (outside l) /\
  outbox (outside l') =
    outbox (outside l) ++ map (fun a => (t, message_of a)) (invocations [x]) /\
  length (calls l') = length (calls l) + length (invocations [x]) /\
  length (console (outside l')) + parked l' =
    length (console (outside l)) + parked l + length (invocations [x]).
Proof.
  intros Hl Hstep. destruct x as [a | i r].
  - destruct (advance_mail_continuation t a (outside l)) as (k & Hk & Hcont).
    unfold step in Hstep. rewrite Hk in Hstep. injection Hstep as <-.
    unfold parked. cbn [calls outside invocations map length].
    rewrite parked_app, length_app. cbn.
    repeat split; try lia.
    apply Forall_app. split; [exact Hl | constructor; [exact Hcont | constructor]].
  - unfold step in Hstep.
    destruct (nth_error (calls l) i) as [[s | t' m k] |] eqn:Hi; try discriminate.
    pose proof (proj1 (Forall_forall _ _) Hl _ (nth_error_In _ _ Hi)) as Hk.
    cbn in Hk. rewrite Hk in Hstep. injection Hstep as <-.
    unfold parked. cbn [calls outside invocations map length].
    rewrite length_update_nth, app_nil_r.
    pose proof (parked_update_nth (outcome r) (calls l) i t' m k Hi) as Hp.
    cbn. rewrite length_app. cbn.
    repeat split; try lia.
    apply Forall_update_nth; [exact Hl | exact I].
Qed.

Lemma invocations_cons (x : action) (xs : list action) :
  invocations (x :: xs) = invocations [x] ++ invocations xs.
Proof. destruct x; reflexivity. Qed.

Lemma steps_accounting (t : handle) (xs : list action) :
  forall l l',
    Forall mail_continuation (calls l) ->
    steps t l xs = Some l' ->
    Forall mail_continuation (calls l') /\
    transports (outside l') = transports (outside l) /\
    outbox (outside l') =
      outbox (outside l) ++ map (fun a => (t, message_of a)) (invocations xs) /\
    length (calls l') = length (calls l) + length (invocations xs) /\
    length (console (outside l')) + parked l' =
      length (console (outside l)) + parked l + length (invocations xs).
Proof.
  induction xs as [| x rest IH]; intros l l' Hl H; cbn [steps] in H.
  - injection H as <-. cbn. rewrite app_nil_r. repeat split; auto; lia.
  - destruct (step t l x) as [l1 |] eqn:Hx; [| discriminate].
    destruct (step_accounting t l l1 x Hl Hx) as (Hl1 & Ht1 & Ho1 & Hc1 & Hp1).
    destruct (IH l1 l' Hl1 H) as (Hl' & Ht' & Ho' & Hc' & Hp').
    rewrite invocations_cons, map_app, length_app.
    rewrite Ht', Ht1, Ho', Ho1, Hc', Hc1, <- app_assoc.
    repeat split; auto; lia.
Qed.

(** X5. However calls and settlements interleave, the submissions reach the
    transporter in the order the calls were made, one per call and at the
    time of the call; no transporter is built; and the console holds one
    line per call that has completed (the lines written plus the calls
    still parked add up to the calls made). *)
Theorem event_loop_accounting
    (t : handle) (w : world) (xs : list action) (l : loop) :
  steps t (idle w) xs = Some l ->
  transports (outside l) = transports w /\
  outbox (outside l) = outbox w ++ map (fun a => (t, message_of a)) (invocations xs) /\
  length (calls l) = length (invocations xs) /\
  length (console (outside l)) + parked l =
    length (console w) + length (invocations xs).
Proof.
  intros H.
  destruct (steps_accounting t xs (idle w) l (Forall_nil _) H)
    as (_ & Ht & Ho & Hc & Hp).
  unfold parked in *. cbn in Ht, Ho, Hc, Hp.
  repeat split; auto; lia.
Qed.

Lemma event_loop_accounting_witness :
  exists l,
    steps 0 (idle empty_world)
      [Invoke sample_arguments; Invoke sample_arguments;
       Settle 1 (Rejected connection_refused)] = Some l /\
    length (console (outside l)) + parked l = 2.
Proof.
  eexists. split; [reflexivity |].
  apply (event_loop_accounting 0 empty_world
           [Invoke sample_arguments; Invoke sample_arguments;
            Settle 1 (Rejected connection_refused)]).
  reflexivity.
Defined.

(** X6. When the transport settles the submission of a call in flight, the
    call completes at once with the result a call on its own would have had
    for that settlement: what other calls are in flight, and in which order
    they complete, has no part in it.  The completion writes one console
    line and submits nothing further. *)
Theorem settled_call_result_is_its_own
    (t : handle) (w : world) (before : list action) (l : loop)
    (i : nat) (r : settlement value) :
  steps t (idle w) before = Some l ->
  in_flight l i = true ->
  exists l' s line,
    step t l (Settle i r) = Some l' /\
    nth_error (calls l') i = Some (Settled s) /\
    (forall T t' a w0,
       response T t' a w0 = r ->
       fst (run T (apply_mail (Index.mail t') a) w0) = s) /\
    console (outside l') = console (outside l) ++ [line] /\
    outbox (outside l') = outbox (outside l).
Proof.
  intros Hreach Hi.
  destruct (steps_accounting t before (idle w) l (Forall_nil _) Hreach) as (Hl & _).
  destruct (in_flight_awaiting l i Hi) as (ti & mi & ki & Hnth).
  pose proof (proj1 (Forall_forall _ _) Hl _ (nth_error_In _ _ Hnth)) as Hk.
  cbn in Hk.
  eexists. exists (outcome r). eexists.
  split; [unfold step; rewrite Hnth, Hk; reflexivity |].
  cbn. split.
  - apply nth_error_update_nth_eq.
    apply nth_error_Some. rewrite Hnth. discriminate.
  - split; [| split; [| reflexivity]].
    + intros T t' [[[rcpt sender] subj] body] w0 Hr.
      cbn [apply_mail]. rewrite run_mail_result, Hr. reflexivity.
    + rewrite <- surjective_pairing. reflexivity.
Qed.

Lemma settled_call_result_is_its_own_witness :
  exists l' s line,
    step 0 two_in_flight (Settle 1 (Rejected connection_refused)) = Some l' /\
    nth_error (calls l') 1 = Some (Settled s) /\
    (forall T t' a w0,
       response T t' a w0 = Rejected connection_refused ->
       fst (run T (apply_mail (Index.mail t') a) w0) = s) /\
    console (outside l') = console (outside two_in_flight) ++ [line] /\
    outbox (outside l') = outbox (outside two_in_flight).
Proof.
  apply (settled_call_result_is_its_own 0 empty_world
           [Invoke sample_arguments; Invoke sample_arguments] two_in_flight
           1 (Rejected connection_refused)).
  - reflexivity.
  - reflexivity.
Defined.

(** * Further properties of a series of calls *)

(** X7. In a series of calls, each settling before the next is made, every
    call writes its one console line whatever became of the calls before
    it: after [n] calls the console is [n] lines longer, whatever mix of
    fulfilled and rejected calls the transport produced, and earlier lines
    are still there. *)
Theorem run_calls_console
    (T : transport) (t : handle) (cs : list arguments) (w : world) :
  exists lines,
    console (run_calls T (Index.mail t) cs w) = console w ++ lines /\
    length lines = length cs.
Proof.
  revert w.
  induction cs as [| [[[rcpt sender] subj] body] rest IH]; intros w;
    cbn [run_calls apply_mail length].
  - exists []. rewrite app_nil_r. split; reflexivity.
  - destruct (IH (snd (run T (Index.mail t rcpt sender subj body) w)))
      as (lines & Hl & Hn).
    rewrite Hl, run_mail_world. cbn [console add_line add_submission].
    eexists. rewrite <- app_assoc. split; [reflexivity |].
    cbn. rewrite Hn. reflexivity.
Qed.
